(** * GrowthMap: sequential module unlocking (schema design of
    src/unnamed/part_000 and src/database-design.md).

    Shallow embedding of the SQL functions that decide module status and
    advance a user's progress:
    - [complete_module] (part_000, lines 139-185);
    - the stored-status [get_user_modules] (part_000, lines 89-113);
    - [get_module_status] (database-design.md, lines 85-136);
    - the correlated-subquery [get_user_modules] (database-design.md,
      lines 173-220).

    Identifiers (the user UUID, SERIAL ids), [order_index] and timestamps
    are modelled as [Z]; SQL [NULL] as [None].  [NOW()] is the argument
    [now] of each call: inside one transaction PostgreSQL returns the same
    value for every [NOW()]. *)

From Stdlib Require Import ZArith List Bool Lia.
From stdpp Require Import base gmap list.
Import ListNotations.
Open Scope Z_scope.

(** ** Data model *)

(** [status VARCHAR(20) CHECK (status IN ('done', 'active', 'locked'))] *)
Inductive status := Done | Active | Locked.

Definition status_eqb (a b : status) : bool :=
  match a, b with
  | Done, Done | Active, Active | Locked, Locked => true
  | _, _ => false
  end.

Lemma status_eqb_true a b : status_eqb a b = true <-> a = b.
Proof. destruct a, b; simpl; intuition congruence. Qed.

(** A row of [modules]; [title] and [description] are not read by any
    of the modelled functions. *)
Record module := mk_module {
  mod_id : Z;
  order_index : Z
}.

(** A row of [user_module_progress] without its key columns.  The
    surrogate [id SERIAL] is left out: no function reads it. *)
Record progress := mk_progress {
  status_of : status;
  completed_at : option Z;
  started_at : option Z;
  created_at : Z;
  updated_at : Z
}.

(** [user_module_progress] with [UNIQUE(user_id, module_id)]: a finite map
    keyed by [(user_id, module_id)]. *)
Abbreviation table := (gmap (Z * Z) progress).

(** The [modules] catalog, in storage order. *)
Abbreviation catalog := (list module).

(** ** Catalog lookups as written in [complete_module] *)

(** [SELECT order_index FROM modules WHERE id = p_module_id]; [id] is the
    primary key, so at most one row matches. *)
Definition module_order_index (cat : catalog) (m : Z) : option Z :=
  option_map order_index (find (fun e => Z.eqb (mod_id e) m) cat).

(** [SELECT id INTO v_next_module_id FROM modules
      WHERE order_index = (SELECT order_index + 1 FROM modules
                           WHERE id = p_module_id) LIMIT 1]:
    a [NULL] subquery makes the comparison [NULL], so no row matches.
    This is the lookup's result when [order_index + 1] stays within
    [INTEGER]; [next_module_lookup] below adds the overflow error. *)
Definition next_module_id (cat : catalog) (m : Z) : option Z :=
  match module_order_index cat m with
  | None => None
  | Some k => option_map mod_id (find (fun e => Z.eqb (order_index e) (k + 1)) cat)
  end.

(** ** [complete_module] (part_000, lines 139-185) *)

(** [UPDATE user_module_progress SET status = 'done',
      completed_at = NOW(), updated_at = NOW()
    WHERE user_id = p_user_id AND module_id = p_module_id] *)
Definition mark_done (now u m : Z) (t : table) : table :=
  match t !! (u, m) with
  | Some r =>
      <[(u, m) := mk_progress Done (Some now) (started_at r) (created_at r) now]> t
  | None => t
  end.

(** [INSERT INTO user_module_progress (user_id, module_id, status, started_at)
     VALUES (p_user_id, v_next_module_id, 'active', NOW())
     ON CONFLICT (user_id, module_id) DO UPDATE SET status = 'active',
       started_at = COALESCE(user_module_progress.started_at, NOW()),
       updated_at = NOW()
     WHERE user_module_progress.status != 'done'] *)
Definition upsert_active (now u n : Z) (t : table) : table :=
  match t !! (u, n) with
  | None => <[(u, n) := mk_progress Active None (Some now) now now]> t
  | Some r =>
      if status_eqb (status_of r) Done then t
      else <[(u, n) := mk_progress Active (completed_at r)
                         (Some (default now (started_at r))) (created_at r) now]> t
  end.

(** The body of [complete_module]: the precondition
    [IF v_current_status IS NULL OR v_current_status != 'active' THEN RETURN],
    then step (a) [mark_done], step (b) [next_module_id] and step (c)
    [upsert_active] when a successor exists: the table a call commits.
    The errors that abort a call (a failing statement, the [INTEGER]
    overflow of step (b)) are in the transaction model below. *)
Definition complete_module (cat : catalog) (now u m : Z) (t : table) : table :=
  match option_map status_of (t !! (u, m)) with
  | Some Active =>
      let t1 := mark_done now u m t in
      match next_module_id cat m with
      | Some n => upsert_active now u n t1
      | None => t1
      end
  | _ => t
  end.

(** ** [complete_module] as a transaction

    Each SQL statement of the body may fail to commit
    ([TransientStoreFailure], e.g. a write conflict); [fault i] says
    whether the [i]-th statement does.  The function is called through
    [supabase.rpc], i.e. as one statement of its own transaction: an error
    raised anywhere in the body aborts the transaction and the table is
    restored. *)

Inductive sql_error := NotFound | TransientStoreFailure | IntegerOutOfRange.

Definition tx (A : Type) : Type := table -> sql_error + (A * table).

Definition tx_ret {A} (x : A) : tx A := fun t => inr (x, t).

Definition tx_bind {A B} (c : tx A) (k : A -> tx B) : tx B :=
  fun t => match c t with
           | inl e => inl e
           | inr (x, t') => k x t'
           end.

Notation "'let*' x ':=' c 'in' k" := (tx_bind c (fun x => k))
  (at level 200, x name, c at level 100, k at level 200).

(** One SQL statement: it reads and writes the table, or fails. *)
Definition stmt {A} (fails : bool) (g : table -> A * table) : tx A :=
  fun t => if fails then inl TransientStoreFailure else inr (g t).

(** [INTEGER] is 32-bit: [+] on it raises [integer out of range] when the
    sum leaves [-2147483648 .. 2147483647]. *)
Definition int4_min : Z := -2147483648.
Definition int4_max : Z := 2147483647.

Definition int4_add (a b : Z) : sql_error + Z :=
  if Z.leb int4_min (a + b) && Z.leb (a + b) int4_max then inr (a + b)
  else inl IntegerOutOfRange.

(** The successor lookup with the [INTEGER] addition of its subquery
    [SELECT order_index + 1 FROM modules WHERE id = p_module_id]. *)
Definition next_module_lookup (cat : catalog) (m : Z) : sql_error + option Z :=
  match module_order_index cat m with
  | None => inr None
  | Some k =>
      match int4_add k 1 with
      | inl e => inl e
      | inr k1 => inr (option_map mod_id (find (fun e => Z.eqb (order_index e) k1) cat))
      end
  end.

(** Step (b): the successor lookup of [complete_module]. *)
Definition select_next_module (fails : bool) (cat : catalog) (m : Z) : tx (option Z) :=
  fun t => if fails then inl TransientStoreFailure
           else match next_module_lookup cat m with
                | inl e => inl e
                | inr n => inr (n, t)
                end.

Definition complete_module_body (fault : nat -> bool) (cat : catalog)
    (now u m : Z) : tx unit :=
  let* cur := stmt (fault 0%nat) (fun t => (option_map status_of (t !! (u, m)), t)) in
  match cur with
  | Some Active =>
      let* _ := stmt (fault 1%nat) (fun t => (tt, mark_done now u m t)) in
      let* nxt := select_next_module (fault 2%nat) cat m in
      match nxt with
      | Some n => stmt (fault 3%nat) (fun t => (tt, upsert_active now u n t))
      | None => tx_ret tt
      end
  | _ => tx_ret tt
  end.

(** The transaction around the call: commit on success, roll back on
    error.  The result is the error raised, if any, and the table after
    the transaction ends. *)
Definition run_transaction (c : tx unit) (t : table) : option sql_error * table :=
  match c t with
  | inl e => (Some e, t)
  | inr (_, t') => (None, t')
  end.

Definition call_complete_module (fault : nat -> bool) (cat : catalog)
    (now u m : Z) (t : table) : option sql_error * table :=
  run_transaction (complete_module_body fault cat now u m) t.

Definition no_fault : nat -> bool := fun _ => false.

(** A sequence of calls [(now, user_id, module_id)], each in its own
    transaction, with no store failure. *)
Fixpoint run_calls (cat : catalog) (calls : list (Z * Z * Z)) (t : table) : table :=
  match calls with
  | [] => t
  | (now, u, m) :: rest => run_calls cat rest (complete_module cat now u m t)
  end.

(** ** Status projections *)

(** A row returned by [get_user_modules]. *)
Record user_module := mk_user_module {
  um_id : Z;
  um_order_index : Z;
  um_status : status;
  um_completed_at : option Z;
  um_started_at : option Z
}.

(** [ORDER BY m.order_index] (insertion sort, stable). *)
Fixpoint insert_by_order (e : module) (l : catalog) : catalog :=
  match l with
  | [] => [e]
  | e' :: l' => if Z.leb (order_index e) (order_index e') then e :: l
                else e' :: insert_by_order e l'
  end.

Fixpoint sort_by_order (cat : catalog) : catalog :=
  match cat with
  | [] => []
  | e :: cat' => insert_by_order e (sort_by_order cat')
  end.

Definition row_completed_at (r : option progress) : option Z :=
  match r with Some p => completed_at p | None => None end.

Definition row_started_at (r : option progress) : option Z :=
  match r with Some p => started_at p | None => None end.

(** [x < y] in a [WHERE] clause: a [NULL] operand makes it [NULL], which
    filters the row out. *)
Definition sql_lt (x : Z) (y : option Z) : bool :=
  match y with Some y => Z.ltb x y | None => false end.

Definition stored_done (r : option progress) : bool :=
  match r with Some p => status_eqb (status_of p) Done | None => false end.

(** [SELECT COUNT( * ) FROM user_module_progress ump
      JOIN modules m ON m.id = ump.module_id
      WHERE ump.user_id = p_user_id AND ump.status = 'done'
        AND m.order_index < k]:
    the join is enumerated from the [modules] side; by
    [UNIQUE(user_id, module_id)] each module row meets at most one
    progress row. *)
Definition previous_done_count (cat : catalog) (t : table) (u : Z) (k : option Z) : nat :=
  length (List.filter (fun m2 => sql_lt (order_index m2) k && stored_done (t !! (u, mod_id m2))) cat).

(** [SELECT COUNT( * ) FROM modules WHERE order_index < k] *)
Definition total_previous_modules (cat : catalog) (k : option Z) : nat :=
  length (List.filter (fun m3 => sql_lt (order_index m3) k) cat).

(** [get_module_status] (database-design.md, lines 85-136).  [IF a = b]
    with a [NULL] operand takes the [ELSE] path. *)
Definition get_module_status (cat : catalog) (t : table) (u m : Z) : status :=
  let v_order_index := module_order_index cat m in
  let v_current_status := option_map status_of (t !! (u, m)) in
  if (match v_current_status with Some s => status_eqb s Done | None => false end)
  then Done
  else if (match v_order_index with Some k => Z.eqb k 1 | None => false end)
  then Active
  else if Nat.eqb (previous_done_count cat t u v_order_index)
                  (total_previous_modules cat v_order_index)
  then Active
  else Locked.

(** The correlated-subquery [get_user_modules] (database-design.md,
    lines 173-220). *)
Module DesignDoc.

Definition module_status (cat : catalog) (t : table) (u : Z) (m : module) : status :=
  match option_map status_of (t !! (u, mod_id m)) with
  | Some Done => Done
  | _ =>
      if Z.eqb (order_index m) 1 then Active
      else if Nat.eqb (previous_done_count cat t u (Some (order_index m)))
                      (total_previous_modules cat (Some (order_index m)))
      then Active
      else Locked
  end.

Definition get_user_modules (cat : catalog) (t : table) (u : Z) : list user_module :=
  map (fun m => mk_user_module (mod_id m) (order_index m) (module_status cat t u m)
                  (row_completed_at (t !! (u, mod_id m)))
                  (row_started_at (t !! (u, mod_id m))))
      (sort_by_order cat).

End DesignDoc.

(** The stored-status [get_user_modules] (part_000, lines 89-113):
    [COALESCE(ump.status, 'locked')] over
    [modules m LEFT JOIN user_module_progress ump
       ON m.id = ump.module_id AND ump.user_id = p_user_id]. *)
Module Part000.

Definition get_user_modules (cat : catalog) (t : table) (u : Z) : list user_module :=
  map (fun m => mk_user_module (mod_id m) (order_index m)
                  (default Locked (option_map status_of (t !! (u, mod_id m))))
                  (row_completed_at (t !! (u, mod_id m)))
                  (row_started_at (t !! (u, mod_id m))))
      (sort_by_order cat).

End Part000.

(** The scenario catalog of part_001 and database-design.md: five modules
    with [order_index] 1..5. *)
Definition seed_catalog : catalog :=
  [mk_module 1 1; mk_module 2 2; mk_module 3 3; mk_module 4 4; mk_module 5 5].

(** A user 7 whose row for module 1 is [active] while module 2 is
    already [done] (a state the prefix rule would not produce). *)
Definition scenario_table : table :=
  <[(7, 2) := mk_progress Done (Some 5) (Some 2) 2 5]>
  {[(7, 1) := mk_progress Active None (Some 1) 1 1]}.

(** A user 7 whose row for module 3 is [locked]. *)
Definition locked_table : table := {[(7, 3) := mk_progress Locked None None 0 0]}.

Example next_of_2 : next_module_id seed_catalog 2 = Some 3.
Proof. reflexivity. Qed.

Example next_of_5 : next_module_id seed_catalog 5 = None.
Proof. reflexivity. Qed.

Example new_user_design : map um_status (DesignDoc.get_user_modules seed_catalog ∅ 7)
  = [Active; Locked; Locked; Locked; Locked].
Proof. reflexivity. Qed.

Example new_user_part000 : map um_status (Part000.get_user_modules seed_catalog ∅ 7)
  = [Locked; Locked; Locked; Locked; Locked].
Proof. reflexivity. Qed.

(** ** Further code of the schema documents *)



(** The trigger function [handle_module_completion] (database-design.md,
    lines 246-285 and 455-489), fired [AFTER INSERT OR UPDATE] for the row
    [(u, m)] with status [new_status]; [old_status] is [OLD.status], [NULL]
    ([None]) on an insert.  Its successor lookup is the one of
    [complete_module]. *)
Definition handle_module_completion (cat : catalog) (now : Z) (old_status : option status)
    (u m : Z) (new_status : status) (t : table) : table :=
  if status_eqb new_status Done &&
     match old_status with None => true | Some s => negb (status_eqb s Done) end
  then match next_module_id cat m with
       | Some n => upsert_active now u n t
       | None => t
       end
  else t.



(** A row of the materialized view [user_modules_status_cache]. *)
Record cache_row := mk_cache_row {
  c_user_id : option Z;
  c_module_id : Z;
  c_order_index : Z;
  c_status : status
}.

(** [SELECT DISTINCT user_id FROM user_module_progress] *)
Definition distinct_users (t : table) : list Z :=
  remove_dups (map (fun kv : (Z * Z) * progress => kv.1.1) (map_to_list t)).

(** The cache of part_000 (lines 256-268): [modules m CROSS JOIN users
    LEFT JOIN user_module_progress ump ON m.id = ump.module_id
    AND ump.user_id = users.user_id], selecting [ump.user_id] and
    [COALESCE(ump.status, 'locked')]. *)
Definition cache_row_of (t : table) (m : module) (d : Z) : cache_row :=
  match t !! (d, mod_id m) with
  | Some r => mk_cache_row (Some d) (mod_id m) (order_index m) (status_of r)
  | None => mk_cache_row None (mod_id m) (order_index m) Locked
  end.

Definition user_modules_status_cache (cat : catalog) (t : table) : list cache_row :=
  flat_map (fun m => map (cache_row_of t m) (distinct_users t)) cat.

(** [CREATE UNIQUE INDEX ON user_modules_status_cache(user_id, module_id)]:
    the index keys (and [REFRESH MATERIALIZED VIEW CONCURRENTLY] requires
    such an index).  [NULL]s are distinct in a unique index, so a row with
    [user_id = NULL] can collide with no other; the keys that must be
    pairwise different are those of the other rows. *)
Definition cache_index_key (c : cache_row) : list (Z * Z) :=
  match c_user_id c with
  | Some d => [(d, c_module_id c)]
  | None => []
  end.

Definition cache_index_keys (cat : catalog) (t : table) : list (Z * Z) :=
  flat_map cache_index_key (user_modules_status_cache cat t).

(** Row invariants the write path keeps: a [done] row has [completed_at],
    an [active] row has [started_at]. *)
Definition row_wf (r : progress) : bool :=
  (negb (status_eqb (status_of r) Done) || bool_decide (completed_at r <> None)) &&
  (negb (status_eqb (status_of r) Active) || bool_decide (started_at r <> None)).

Definition rows_wf (t : table) : bool :=
  forallb (fun kv : (Z * Z) * progress => row_wf kv.2) (map_to_list t).

(** [reached_prefix] as a check. *)
Definition reached (r : option progress) : bool :=
  match r with Some p => negb (status_eqb (status_of p) Locked) | None => false end.

Definition reached_prefixb (cat : catalog) (t : table) (u : Z) : bool :=
  forallb (fun e1 => forallb (fun e2 =>
    negb (Z.ltb (order_index e2) (order_index e1)) || negb (reached (t !! (u, mod_id e1))) ||
    stored_done (t !! (u, mod_id e2))) cat) cat.

(** ** Basic facts about the write path *)



(** Neither step of the body rewrites a row that is already [done]. *)
Lemma mark_done_keeps_done now u m t k r :
  t !! k = Some r -> status_of r = Done -> mark_done now u m t !! k = Some r \/ k = (u, m).
Proof.
  intros Hk _. unfold mark_done.
  destruct (decide (k = (u, m))) as [->|Hne]; [by right|left].
  destruct (t !! (u, m)); [|done]. by rewrite lookup_insert_ne by congruence.
Qed.

Lemma upsert_active_keeps_done now u n t k r :
  t !! k = Some r -> status_of r = Done -> upsert_active now u n t !! k = Some r.
Proof.
  intros Hk Hd. unfold upsert_active.
  destruct (decide (k = (u, n))) as [->|Hne].
  - rewrite Hk, Hd. simpl. exact Hk.
  - destruct (t !! (u, n)) as [r'|].
    + destruct (status_eqb (status_of r') Done); [exact Hk|].
      by rewrite lookup_insert_ne by congruence.
    + by rewrite lookup_insert_ne by congruence.
Qed.

Lemma upsert_active_other now u n t k :
  k <> (u, n) -> upsert_active now u n t !! k = t !! k.
Proof.
  intros Hne. unfold upsert_active.
  destruct (t !! (u, n)) as [r'|].
  - destruct (status_eqb (status_of r') Done); [done|].
    by rewrite lookup_insert_ne by congruence.
  - by rewrite lookup_insert_ne by congruence.
Qed.

(** After a completion that acts, the completed module's row is [done]. *)
Lemma complete_module_marks_done cat now u m t r :
  t !! (u, m) = Some r -> status_of r = Active ->
  complete_module cat now u m t !! (u, m) =
    Some (mk_progress Done (Some now) (started_at r) (created_at r) now).
Proof.
  intros Hr Ha. unfold complete_module. rewrite Hr. simpl. rewrite Ha.
  assert (H1 : mark_done now u m t !! (u, m) =
               Some (mk_progress Done (Some now) (started_at r) (created_at r) now)).
  { unfold mark_done. rewrite Hr. by rewrite lookup_insert_eq. }
  destruct (next_module_id cat m) as [n|]; [|exact H1].
  by apply upsert_active_keeps_done.
Qed.

Lemma complete_module_keeps_done cat now u m t k r :
  t !! k = Some r -> status_of r = Done -> complete_module cat now u m t !! k = Some r.
Proof.
  intros Hk Hd. unfold complete_module.
  destruct (t !! (u, m)) as [r0|] eqn:Hm; simpl; [|exact Hk].
  destruct (status_of r0) eqn:Hs; try exact Hk.
  assert (H1 : mark_done now u m t !! k = Some r).
  { destruct (mark_done_keeps_done now u m t k r Hk Hd) as [H| ->]; [exact H|].
    rewrite Hm in Hk. inversion Hk; subst. congruence. }
  destruct (next_module_id cat m) as [n|]; [|exact H1].
  by apply upsert_active_keeps_done.
Qed.

(** ** Catalog facts *)

Lemma find_some_in {A} (f : A -> bool) (l : list A) x :
  find f l = Some x -> In x l /\ f x = true.
Proof.
  induction l as [|a l IH]; simpl; [discriminate|].
  destruct (f a) eqn:Ha; intros H; [inversion H; subst; auto|].
  destruct (IH H); auto.
Qed.

Lemma find_none_all {A} (f : A -> bool) (l : list A) :
  (forall x, In x l -> f x = false) -> find f l = None.
Proof.
  induction l as [|a l IH]; simpl; intros H; [reflexivity|].
  rewrite (H a (or_introl eq_refl)). apply IH. auto.
Qed.

Lemma NoDup_map_same {A B} (f : A -> B) (l : list A) x y :
  NoDup (map f l) -> In x l -> In y l -> f x = f y -> x = y.
Proof.
  induction l as [|a l IH]; simpl; [tauto|].
  intros Hnd Hx Hy Hf. inversion Hnd as [|? ? Hnin Hnd']; subst.
  destruct Hx as [<-|Hx], Hy as [<-|Hy]; auto.
  - exfalso. apply Hnin, list_elem_of_In. rewrite Hf. by apply in_map.
  - exfalso. apply Hnin, list_elem_of_In. rewrite <- Hf. by apply in_map.
Qed.

Lemma module_order_index_in cat e :
  NoDup (map mod_id cat) -> In e cat -> module_order_index cat (mod_id e) = Some (order_index e).
Proof.
  intros Hnd He. unfold module_order_index.
  destruct (find (fun e' => Z.eqb (mod_id e') (mod_id e)) cat) as [e'|] eqn:Hf.
  - apply find_some_in in Hf as [Hin Heq]. apply Z.eqb_eq in Heq.
    rewrite (NoDup_map_same mod_id cat e' e Hnd Hin He Heq). reflexivity.
  - exfalso. assert (Hn := find_none _ _ Hf e He). simpl in Hn.
    rewrite Z.eqb_refl in Hn. discriminate.
Qed.

Lemma module_order_index_unknown cat m :
  ~ In m (map mod_id cat) -> module_order_index cat m = None.
Proof.
  intros Hn. unfold module_order_index. rewrite find_none_all; [reflexivity|].
  intros x Hx. apply Z.eqb_neq. intros <-. apply Hn. by apply in_map.
Qed.

(** ** Claims about [complete_module] *)

(** C4: the completion is all-or-nothing.  Whatever statement of the body
    fails, the call either commits the whole transition (step (a) and, when
    a successor exists, step (c)) without error, or fails and leaves the
    table exactly as it was before the call.  The error is a store
    failure, or the [integer out of range] of the successor lookup. *)
Theorem complete_module_atomic (fault : nat -> bool) (cat : catalog) (now u m : Z) (t : table) :
  call_complete_module fault cat now u m t = (None, complete_module cat now u m t) \/
  call_complete_module fault cat now u m t = (Some TransientStoreFailure, t) \/
  call_complete_module fault cat now u m t = (Some IntegerOutOfRange, t).
Proof.
  unfold call_complete_module, run_transaction, complete_module_body, complete_module,
    select_next_module, tx_bind, stmt, tx_ret.
  destruct (fault 0%nat); [by right; left|].
  destruct (t !! (u, m)) as [r|]; simpl; [|by left].
  destruct (status_of r); simpl; try by left.
  destruct (fault 1%nat); [by right; left|].
  destruct (fault 2%nat); [by right; left|].
  assert (Hl : next_module_lookup cat m = inl IntegerOutOfRange \/
               next_module_lookup cat m = inr (next_module_id cat m)).
  { unfold next_module_lookup, next_module_id, int4_add.
    destruct (module_order_index cat m); [|by right].
    destruct (Z.leb int4_min (_ + 1) && Z.leb (_ + 1) int4_max); [by right|by left]. }
  destruct Hl as [-> | ->]; [by right; right|].
  destruct (next_module_id cat m); [|by left].
  destruct (fault 3%nat); [by right; left|by left].
Qed.

(** C5: when the user's row for the module is absent, [locked] or already
    [done], the call only runs its precondition [SELECT]; it returns
    without error and changes no row. *)
Theorem complete_module_silent_noop (fault : nat -> bool) (cat : catalog) (now u m : Z) (t : table) :
  fault 0%nat = false ->
  (t !! (u, m) = None \/
   exists r, t !! (u, m) = Some r /\ (status_of r = Locked \/ status_of r = Done)) ->
  call_complete_module fault cat now u m t = (None, t).
Proof.
  intros Hf0 Hpre.
  unfold call_complete_module, run_transaction, complete_module_body, tx_bind, stmt, tx_ret.
  rewrite Hf0.
  destruct Hpre as [-> | (r & -> & [Hs|Hs])]; simpl; [reflexivity| |]; rewrite Hs; reflexivity.
Qed.

Lemma complete_module_silent_noop_witness :
  no_fault 0%nat = false /\
  (locked_table !! (7, 3) = None \/
    exists r, locked_table !! (7, 3) = Some r /\
              (status_of r = Locked \/ status_of r = Done)) /\
  call_complete_module no_fault seed_catalog 10 7 3 locked_table
    = (None, locked_table).
Proof.
  assert (Hpre : locked_table !! (7, 3) = None \/
    exists r, locked_table !! (7, 3) = Some r /\
              (status_of r = Locked \/ status_of r = Done)).
  { right. exists (mk_progress Locked None None 0 0). split; [reflexivity|left; reflexivity]. }
  split; [reflexivity|split; [exact Hpre|]].
  apply complete_module_silent_noop; [reflexivity|exact Hpre].
Defined.

(** C6: completing the same module twice in a row gives the state of one
    completion; the second call changes nothing, whatever its [NOW()]. *)
Theorem complete_module_idempotent (cat : catalog) (now1 now2 u m : Z) (t : table) :
  complete_module cat now2 u m (complete_module cat now1 u m t) = complete_module cat now1 u m t.
Proof.
  destruct (t !! (u, m)) as [r|] eqn:Hr.
  - destruct (status_of r) eqn:Hs.
    + assert (E : complete_module cat now1 u m t = t)
        by (unfold complete_module; rewrite Hr; simpl; rewrite Hs; reflexivity).
      rewrite E. unfold complete_module. rewrite Hr. simpl. by rewrite Hs.
    + unfold complete_module at 1.
      by rewrite (complete_module_marks_done cat now1 u m t r Hr Hs).
    + assert (E : complete_module cat now1 u m t = t)
        by (unfold complete_module; rewrite Hr; simpl; rewrite Hs; reflexivity).
      rewrite E. unfold complete_module. rewrite Hr. simpl. by rewrite Hs.
  - assert (E : complete_module cat now1 u m t = t)
      by (unfold complete_module; rewrite Hr; reflexivity).
    rewrite E. unfold complete_module. by rewrite Hr.
Qed.

(** C7: no regression.  A row that is already [done] (in particular the
    successor's) is left exactly as it was, status and timestamps; the
    completed module itself becomes [done] when it was [active]. *)
Theorem complete_module_no_regression (cat : catalog) (now u m n : Z) (t : table) (r : progress) :
  t !! (u, n) = Some r -> status_of r = Done ->
  complete_module cat now u m t !! (u, n) = Some r /\
  (option_map status_of (t !! (u, m)) = Some Active ->
   option_map status_of (complete_module cat now u m t !! (u, m)) = Some Done).
Proof.
  intros Hn Hd. split; [by apply complete_module_keeps_done|].
  destruct (t !! (u, m)) as [r0|] eqn:Hm; simpl; [|discriminate].
  intros Ha. inversion Ha as [Ha'].
  by rewrite (complete_module_marks_done cat now u m t r0 Hm Ha').
Qed.

Lemma complete_module_no_regression_witness :
  scenario_table !! (7, 2) = Some (mk_progress Done (Some 5) (Some 2) 2 5) /\
  status_of (mk_progress Done (Some 5) (Some 2) 2 5) = Done /\
  complete_module seed_catalog 9 7 1 scenario_table !! (7, 2)
    = Some (mk_progress Done (Some 5) (Some 2) 2 5) /\
  (option_map status_of (scenario_table !! (7, 1)) = Some Active ->
   option_map status_of (complete_module seed_catalog 9 7 1 scenario_table !! (7, 1)) = Some Done).
Proof.
  split; [reflexivity|split; [reflexivity|]].
  apply complete_module_no_regression; reflexivity.
Defined.







(** ** Claims about the catalog lookups and the projections *)

Lemma filter_all_false {A} (f : A -> bool) (l : list A) :
  (forall x, In x l -> f x = false) -> List.filter f l = [].
Proof.
  induction l as [|a l IH]; simpl; intros H; [reflexivity|].
  rewrite (H a (or_introl eq_refl)). apply IH. auto.
Qed.

(** [module_id INTEGER NOT NULL REFERENCES modules(id)]: every progress
    row names a catalog module. *)
Definition module_refs_ok (cat : catalog) (t : table) : bool :=
  forallb (fun kv : (Z * Z) * progress => existsb (fun e => Z.eqb (mod_id e) kv.1.2) cat)
    (map_to_list t).

Lemma module_refs_ok_spec cat t :
  module_refs_ok cat t = true -> forall v k p, t !! (v, k) = Some p -> In k (map mod_id cat).
Proof.
  unfold module_refs_ok. rewrite forallb_forall. intros H v k p Hp.
  assert (Hin : In ((v, k), p) (map_to_list t))
    by (apply list_elem_of_In, elem_of_map_to_list, Hp).
  specialize (H _ Hin). simpl in H. apply existsb_exists in H as (x & Hx & Heq).
  apply Z.eqb_eq in Heq. rewrite <- Heq. by apply in_map.
Qed.

(** For a module id absent from the catalog, the [order_index] lookup is
    [NULL] and both counts of preceding modules are 0. *)
Lemma unknown_module_counts (cat : catalog) (m u : Z) (t : table) :
  ~ In m (map mod_id cat) ->
  module_order_index cat m = None /\
  previous_done_count cat t u (module_order_index cat m) = 0%nat /\
  total_previous_modules cat (module_order_index cat m) = 0%nat.
Proof.
  intros Hn. pose proof (module_order_index_unknown cat m Hn) as Hk.
  unfold previous_done_count, total_previous_modules.
  rewrite Hk. split; [reflexivity|].
  split; rewrite filter_all_false; reflexivity || (intros; reflexivity).
Qed.

(** C9 as stated: a lookup on a module that is not in the catalog fails
    with [NotFound].  It does not: [complete_module] called for module 99,
    absent from the seed catalog, on a table whose rows all reference
    catalog modules, returns without error and changes nothing, and
    [get_module_status] for module 99 returns [active]. *)
Lemma unknown_module_not_found_counterexample :
  ~ In 99 (map mod_id seed_catalog) /\
  module_refs_ok seed_catalog scenario_table = true /\
  call_complete_module no_fault seed_catalog 9 7 99 scenario_table = (None, scenario_table) /\
  get_module_status seed_catalog scenario_table 7 99 = Active.
Proof.
  split; [simpl; intuition lia|].
  split; [vm_compute; reflexivity|split; reflexivity].
Qed.

(** C9 amended: no lookup on an unknown module id raises [NotFound].
    [complete_module] for a module id absent from the catalog either
    returns without error and changes nothing (no progress row can
    reference the id, so the precondition returns before the successor
    lookup) or fails only by a store failure, the table restored; the
    [order_index] lookup of [get_module_status] gives [NULL] and the
    function returns [active]. *)
Theorem unknown_module_lookups (cat : catalog) (now u m : Z) (t : table) :
  (forall v k p, t !! (v, k) = Some p -> In k (map mod_id cat)) ->
  ~ In m (map mod_id cat) ->
  (forall fault, call_complete_module fault cat now u m t = (None, t) \/
                 call_complete_module fault cat now u m t = (Some TransientStoreFailure, t)) /\
  module_order_index cat m = None /\
  get_module_status cat t u m = Active.
Proof.
  intros Hfk Hn.
  assert (Hr : t !! (u, m) = None).
  { destruct (t !! (u, m)) as [p|] eqn:Hp; [|reflexivity].
    exfalso. exact (Hn (Hfk u m p Hp)). }
  destruct (unknown_module_counts cat m u t Hn) as (Hk & Hd & Ht).
  split; [|split; [exact Hk|]].
  - intros fault.
    unfold call_complete_module, run_transaction, complete_module_body, tx_bind, stmt, tx_ret.
    destruct (fault 0%nat); [by right|]. rewrite Hr. by left.
  - unfold get_module_status. rewrite Hd, Ht, Hk, Hr. reflexivity.
Qed.

Lemma unknown_module_lookups_witness :
  (forall v k p, scenario_table !! (v, k) = Some p -> In k (map mod_id seed_catalog)) /\
  ~ In 99 (map mod_id seed_catalog) /\
  ((forall fault, call_complete_module fault seed_catalog 9 7 99 scenario_table = (None, scenario_table) \/
                  call_complete_module fault seed_catalog 9 7 99 scenario_table
                    = (Some TransientStoreFailure, scenario_table)) /\
   module_order_index seed_catalog 99 = None /\
   get_module_status seed_catalog scenario_table 7 99 = Active).
Proof.
  assert (Hfk : forall v k p, scenario_table !! (v, k) = Some p -> In k (map mod_id seed_catalog))
    by (apply module_refs_ok_spec; vm_compute; reflexivity).
  assert (Hn : ~ In 99 (map mod_id seed_catalog)) by (simpl; intuition lia).
  split; [exact Hfk|split; [exact Hn|]].
  exact (unknown_module_lookups seed_catalog 9 7 99 scenario_table Hfk Hn).
Defined.

(** C10: for a module id absent from the catalog and no stored row,
    [get_module_status] returns [active]: [v_order_index] is [NULL], both
    counts are 0 and the comparison [0 = 0] succeeds. *)
Theorem get_module_status_unknown_active (cat : catalog) (t : table) (u m : Z) :
  ~ In m (map mod_id cat) -> t !! (u, m) = None -> get_module_status cat t u m = Active.
Proof.
  intros Hn Hr.
  destruct (unknown_module_counts cat m u t Hn) as (Hk & Hd & Ht).
  unfold get_module_status. rewrite Hd, Ht, Hk, Hr. reflexivity.
Qed.

Lemma get_module_status_unknown_active_witness :
  ~ In 99 (map mod_id seed_catalog) /\ scenario_table !! (7, 99) = None /\
  get_module_status seed_catalog scenario_table 7 99 = Active.
Proof.
  assert (Hn : ~ In 99 (map mod_id seed_catalog)) by (simpl; intuition lia).
  split; [exact Hn|split; [reflexivity|]].
  apply get_module_status_unknown_active; [exact Hn|reflexivity].
Defined.

Lemma in_insert_by_order e l x : In x (insert_by_order e l) <-> In x (e :: l).
Proof.
  induction l as [|e' l IH]; simpl; [tauto|].
  destruct (Z.leb (order_index e) (order_index e')); [reflexivity|].
  simpl. rewrite IH. simpl. tauto.
Qed.

Lemma in_sort_by_order cat x : In x (sort_by_order cat) <-> In x cat.
Proof.
  induction cat as [|e cat IH]; simpl; [tauto|].
  rewrite in_insert_by_order. simpl. rewrite IH. tauto.
Qed.

Lemma in_design_rows cat t u r :
  In r (DesignDoc.get_user_modules cat t u) ->
  exists m, In m cat /\ r = mk_user_module (mod_id m) (order_index m)
                              (DesignDoc.module_status cat t u m)
                              (row_completed_at (t !! (u, mod_id m)))
                              (row_started_at (t !! (u, mod_id m))).
Proof.
  unfold DesignDoc.get_user_modules. intros Hr. apply in_map_iff in Hr as (m & <- & Hm).
  exists m. split; [by apply in_sort_by_order|reflexivity].
Qed.

Lemma in_part000_rows cat t u r :
  In r (Part000.get_user_modules cat t u) ->
  exists m, In m cat /\ r = mk_user_module (mod_id m) (order_index m)
                              (default Locked (option_map status_of (t !! (u, mod_id m))))
                              (row_completed_at (t !! (u, mod_id m)))
                              (row_started_at (t !! (u, mod_id m))).
Proof.
  unfold Part000.get_user_modules. intros Hr. apply in_map_iff in Hr as (m & <- & Hm).
  exists m. split; [by apply in_sort_by_order|reflexivity].
Qed.

(** Without a stored row the computed status is never [done]. *)
Lemma module_status_no_row cat t u m :
  t !! (u, mod_id m) = None -> DesignDoc.module_status cat t u m <> Done.
Proof.
  intros Hr. unfold DesignDoc.module_status. rewrite Hr. simpl.
  destruct (Z.eqb (order_index m) 1); [discriminate|].
  destruct (Nat.eqb _ _); discriminate.
Qed.

(** C1 as stated: for a new user the stored-status [get_user_modules] of
    part_000 shows the first seed module as [active].  It shows it as
    [locked]. *)
Lemma first_module_default_counterexample :
  (forall m, (∅ : table) !! (7, m) = None) /\
  hd_error (Part000.get_user_modules seed_catalog ∅ 7) = Some (mk_user_module 1 1 Locked None None) /\
  (forall e, In e seed_catalog -> 1 <= order_index e).
Proof.
  split; [intros m; reflexivity|split; [reflexivity|]].
  intros e He. simpl in He. intuition (subst; simpl; lia).
Qed.

(** For a user without stored rows (and [order_index] values at least 1)
    the computed status of a module is [active] when no module precedes
    it and [locked] otherwise. *)
Lemma new_user_module_status (cat : catalog) (t : table) (u : Z) (m : module) :
  (forall e, In e cat -> 1 <= order_index e) ->
  (forall k, t !! (u, k) = None) ->
  DesignDoc.module_status cat t u m =
    if existsb (fun e => Z.ltb (order_index e) (order_index m)) cat then Locked else Active.
Proof.
  intros Hpos Hnone.
  unfold DesignDoc.module_status. rewrite Hnone. simpl.
  assert (Hd : previous_done_count cat t u (Some (order_index m)) = 0%nat).
  { unfold previous_done_count. rewrite filter_all_false; [reflexivity|].
    intros x _. rewrite Hnone. apply andb_false_r. }
  rewrite Hd.
  destruct (existsb (fun e => Z.ltb (order_index e) (order_index m)) cat) eqn:Hex.
  - apply existsb_exists in Hex as (x & Hx & Hlt). apply Z.ltb_lt in Hlt.
    assert (Hne : Z.eqb (order_index m) 1 = false).
    { apply Z.eqb_neq. specialize (Hpos x Hx). lia. }
    rewrite Hne.
    assert (Htot : total_previous_modules cat (Some (order_index m)) <> 0%nat).
    { unfold total_previous_modules. intros Hl. apply length_zero_iff_nil in Hl.
      assert (Hin : In x (List.filter (fun m3 => sql_lt (order_index m3) (Some (order_index m))) cat)).
      { apply filter_In. split; [exact Hx|]. simpl. by apply Z.ltb_lt. }
      rewrite Hl in Hin. exact Hin. }
    destruct (total_previous_modules cat (Some (order_index m))); [congruence|reflexivity].
  - destruct (Z.eqb (order_index m) 1); [reflexivity|].
    assert (Htot : total_previous_modules cat (Some (order_index m)) = 0%nat).
    { unfold total_previous_modules. rewrite filter_all_false; [reflexivity|].
      intros x Hx. simpl. destruct (Z.ltb (order_index x) (order_index m)) eqn:Hl; [|reflexivity].
      exfalso. assert (Hc : existsb (fun e => Z.ltb (order_index e) (order_index m)) cat = true)
        by (apply existsb_exists; exists x; auto).
      congruence. }
    by rewrite Htot.
Qed.

(** [get_module_status] of a catalog module is the per-row status of the
    computed [get_user_modules] (module ids being unique). *)
Lemma get_module_status_of_module (cat : catalog) (t : table) (u : Z) (m : module) :
  NoDup (map mod_id cat) -> In m cat ->
  get_module_status cat t u (mod_id m) = DesignDoc.module_status cat t u m.
Proof.
  intros Hnd Hm. unfold DesignDoc.module_status, get_module_status.
  rewrite (module_order_index_in cat m Hnd Hm).
  destruct (t !! (u, mod_id m)) as [p|]; simpl; [destruct (status_of p)|]; reflexivity.
Qed.

(** C1 amended.  For a user with no stored row, the stored-status
    [get_user_modules] of part_000 reports every module [locked], the first
    one included; [get_module_status] and the computed [get_user_modules]
    of database-design.md (with unique module ids and [order_index] values
    at least 1) report [active] exactly for the modules that no other
    module precedes and [locked] for the others. *)
Theorem new_user_projection (cat : catalog) (t : table) (u : Z) :
  NoDup (map mod_id cat) ->
  (forall e, In e cat -> 1 <= order_index e) ->
  (forall m, t !! (u, m) = None) ->
  (forall r, In r (Part000.get_user_modules cat t u) -> um_status r = Locked) /\
  (forall r, In r (DesignDoc.get_user_modules cat t u) ->
     um_status r = if existsb (fun e => Z.ltb (order_index e) (um_order_index r)) cat
                   then Locked else Active) /\
  (forall m, In m cat ->
     get_module_status cat t u (mod_id m) =
       if existsb (fun e => Z.ltb (order_index e) (order_index m)) cat then Locked else Active).
Proof.
  intros Hnd Hpos Hnone. split; [|split].
  - intros r Hr. apply in_part000_rows in Hr as (m & _ & ->). simpl. by rewrite Hnone.
  - intros r Hr. apply in_design_rows in Hr as (m & Hm & ->). simpl.
    exact (new_user_module_status cat t u m Hpos Hnone).
  - intros m Hm. rewrite (get_module_status_of_module cat t u m Hnd Hm).
    exact (new_user_module_status cat t u m Hpos Hnone).
Qed.

Lemma new_user_projection_witness :
  NoDup (map mod_id seed_catalog) /\
  (forall e, In e seed_catalog -> 1 <= order_index e) /\
  (forall m, (∅ : table) !! (7, m) = None) /\
  ((forall r, In r (Part000.get_user_modules seed_catalog ∅ 7) -> um_status r = Locked) /\
   (forall r, In r (DesignDoc.get_user_modules seed_catalog ∅ 7) ->
      um_status r = if existsb (fun e => Z.ltb (order_index e) (um_order_index r)) seed_catalog
                    then Locked else Active) /\
   (forall m, In m seed_catalog ->
      get_module_status seed_catalog ∅ 7 (mod_id m) =
        if existsb (fun e => Z.ltb (order_index e) (order_index m)) seed_catalog
        then Locked else Active)).
Proof.
  assert (Hnd : NoDup (map mod_id seed_catalog))
    by (apply (bool_decide_unpack _); vm_compute; exact I).
  assert (Hpos : forall e, In e seed_catalog -> 1 <= order_index e)
    by (intros e He; simpl in He; intuition (subst; simpl; lia)).
  assert (Hnone : forall m, (∅ : table) !! (7, m) = None) by (intros m; reflexivity).
  split; [exact Hnd|split; [exact Hpos|split; [exact Hnone|]]].
  exact (new_user_projection seed_catalog ∅ 7 Hnd Hpos Hnone).
Defined.

(** C2 as stated: the three derivations agree.  They do not: for a new
    user, [get_module_status] and the computed [get_user_modules] give the
    first seed module [active], the stored-status [get_user_modules]
    gives it [locked]. *)
Lemma redundant_derivations_counterexample :
  get_module_status seed_catalog ∅ 7 1 = Active /\
  hd_error (DesignDoc.get_user_modules seed_catalog ∅ 7) = Some (mk_user_module 1 1 Active None None) /\
  hd_error (Part000.get_user_modules seed_catalog ∅ 7) = Some (mk_user_module 1 1 Locked None None).
Proof. split; [reflexivity|split; reflexivity]. Qed.

(** C2 amended: [get_module_status] and the correlated-subquery
    [get_user_modules] of database-design.md agree on every catalog module
    (module ids being unique, as the primary key makes them). *)
Theorem design_doc_derivations_agree (cat : catalog) (t : table) (u : Z) :
  NoDup (map mod_id cat) ->
  forall r, In r (DesignDoc.get_user_modules cat t u) ->
    um_status r = get_module_status cat t u (um_id r).
Proof.
  intros Hnd r Hr. apply in_design_rows in Hr as (m & Hm & ->). simpl.
  unfold DesignDoc.module_status, get_module_status.
  rewrite (module_order_index_in cat m Hnd Hm).
  destruct (t !! (u, mod_id m)) as [p|]; simpl; [destruct (status_of p)|]; reflexivity.
Qed.

Lemma design_doc_derivations_agree_witness :
  NoDup (map mod_id seed_catalog) /\
  (forall r, In r (DesignDoc.get_user_modules seed_catalog scenario_table 7) ->
     um_status r = get_module_status seed_catalog scenario_table 7 (um_id r)).
Proof.
  assert (Hnd : NoDup (map mod_id seed_catalog))
    by (apply (bool_decide_unpack _); vm_compute; exact I).
  split; [exact Hnd|].
  exact (design_doc_derivations_agree seed_catalog scenario_table 7 Hnd).
Defined.

(** A completion for user [v] touches only rows of [v]. *)
Lemma complete_module_other_user cat now v m t k :
  k.1 <> v -> complete_module cat now v m t !! k = t !! k.
Proof.
  intros Hk. unfold complete_module.
  destruct (t !! (v, m)) as [r|] eqn:Hr; simpl; [|reflexivity].
  destruct (status_of r); try reflexivity.
  assert (H1 : mark_done now v m t !! k = t !! k).
  { unfold mark_done. rewrite Hr. apply lookup_insert_ne. intros <-. simpl in Hk. congruence. }
  destruct (next_module_id cat m) as [n|]; [|exact H1].
  rewrite upsert_active_other; [exact H1|]. intros ->. simpl in Hk. congruence.
Qed.

(** From a state without rows for [u], no call ever creates one: the
    precondition fails for [u] and calls for other users touch only their
    own rows. *)
Lemma run_calls_no_rows cat calls t u :
  (forall m, t !! (u, m) = None) -> forall m, run_calls cat calls t !! (u, m) = None.
Proof.
  revert t. induction calls as [|[[now v] m'] calls IH]; simpl; intros t Hnone; [exact Hnone|].
  apply IH. intros m.
  destruct (decide (v = u)) as [->|Hne].
  - unfold complete_module. rewrite (Hnone m'). apply Hnone.
  - rewrite complete_module_other_user; [apply Hnone|]. simpl. congruence.
Qed.

(** C3: from a state in which user [u] has no progress row, after any
    sequence of [complete_module] calls (any users, any modules), the
    modules [u] sees as [done], in either [get_user_modules], form a
    prefix of the catalog order: a [done] module is preceded only by
    [done] modules. *)
Theorem done_prefix_from_empty (cat : catalog) (calls : list (Z * Z * Z)) (t : table) (u : Z) :
  (forall m, t !! (u, m) = None) ->
  (forall r1 r2,
     In r1 (DesignDoc.get_user_modules cat (run_calls cat calls t) u) ->
     In r2 (DesignDoc.get_user_modules cat (run_calls cat calls t) u) ->
     um_status r1 = Done -> um_order_index r2 < um_order_index r1 -> um_status r2 = Done) /\
  (forall r1 r2,
     In r1 (Part000.get_user_modules cat (run_calls cat calls t) u) ->
     In r2 (Part000.get_user_modules cat (run_calls cat calls t) u) ->
     um_status r1 = Done -> um_order_index r2 < um_order_index r1 -> um_status r2 = Done).
Proof.
  intros Hnone. pose proof (run_calls_no_rows cat calls t u Hnone) as Hrun. split.
  - intros r1 r2 Hr1 _ Hd _. exfalso.
    apply in_design_rows in Hr1 as (m & _ & ->). simpl in Hd.
    exact (module_status_no_row cat _ u m (Hrun (mod_id m)) Hd).
  - intros r1 r2 Hr1 _ Hd _. exfalso.
    apply in_part000_rows in Hr1 as (m & _ & ->). simpl in Hd.
    rewrite Hrun in Hd. discriminate.
Qed.

(** The scenario of the spec: user 7 calls for modules 1, 1, 3 and 2 on a
    table where only user 8 has rows. *)
Definition other_user_table : table := {[(8, 1) := mk_progress Active None (Some 0) 0 0]}.

Lemma done_prefix_from_empty_witness :
  (forall m, other_user_table !! (7, m) = None) /\
  ((forall r1 r2,
     In r1 (DesignDoc.get_user_modules seed_catalog
              (run_calls seed_catalog [(1, 7, 1); (2, 7, 1); (3, 7, 3); (4, 8, 1); (5, 7, 2)]
                 other_user_table) 7) ->
     In r2 (DesignDoc.get_user_modules seed_catalog
              (run_calls seed_catalog [(1, 7, 1); (2, 7, 1); (3, 7, 3); (4, 8, 1); (5, 7, 2)]
                 other_user_table) 7) ->
     um_status r1 = Done -> um_order_index r2 < um_order_index r1 -> um_status r2 = Done) /\
   (forall r1 r2,
     In r1 (Part000.get_user_modules seed_catalog
              (run_calls seed_catalog [(1, 7, 1); (2, 7, 1); (3, 7, 3); (4, 8, 1); (5, 7, 2)]
                 other_user_table) 7) ->
     In r2 (Part000.get_user_modules seed_catalog
              (run_calls seed_catalog [(1, 7, 1); (2, 7, 1); (3, 7, 3); (4, 8, 1); (5, 7, 2)]
                 other_user_table) 7) ->
     um_status r1 = Done -> um_order_index r2 < um_order_index r1 -> um_status r2 = Done)).
Proof.
  assert (Hnone : forall m, other_user_table !! (7, m) = None).
  { intros m. unfold other_user_table. rewrite lookup_singleton_ne; [reflexivity|congruence]. }
  split; [exact Hnone|].
  exact (done_prefix_from_empty seed_catalog
           [(1, 7, 1); (2, 7, 1); (3, 7, 3); (4, 8, 1); (5, 7, 2)] other_user_table 7 Hnone).
Defined.

(** ** The prefix rule on seeded states

    From an empty table nothing ever moves (see [run_calls_no_rows]).  The
    rule is also kept on tables in which the first module was provisioned
    [active]: [reached_prefix] says that every module a user has reached
    ([active] or [done]) is preceded only by [done] modules. *)

Definition reached_prefix (cat : catalog) (t : table) (u : Z) : Prop :=
  forall e1 e2 r, In e1 cat -> In e2 cat -> order_index e2 < order_index e1 ->
    t !! (u, mod_id e1) = Some r -> status_of r <> Locked ->
    stored_done (t !! (u, mod_id e2)) = true.

Lemma stored_done_keep cat now v m t k :
  stored_done (t !! k) = true -> stored_done (complete_module cat now v m t !! k) = true.
Proof.
  destruct (t !! k) as [r|] eqn:Hk; simpl; [|discriminate].
  intros Hd. apply status_eqb_true in Hd.
  rewrite (complete_module_keeps_done cat now v m t k r Hk Hd). simpl. by rewrite Hd.
Qed.

Lemma complete_module_preserves_reached_prefix cat now v m t u :
  NoDup (map mod_id cat) -> NoDup (map order_index cat) ->
  reached_prefix cat t u -> reached_prefix cat (complete_module cat now v m t) u.
Proof.
  intros Hid Hoi Hinv e1 e2 r He1 He2 Hlt Hr Hnl.
  destruct (decide (v = u)) as [<-|Hvu].
  2:{ rewrite complete_module_other_user in Hr by (simpl; congruence).
      rewrite complete_module_other_user by (simpl; congruence).
      exact (Hinv e1 e2 r He1 He2 Hlt Hr Hnl). }
  destruct (t !! (v, m)) as [r0|] eqn:Hm.
  2:{ assert (E : complete_module cat now v m t = t)
        by (unfold complete_module; rewrite Hm; reflexivity).
      rewrite E in Hr |- *. exact (Hinv e1 e2 r He1 He2 Hlt Hr Hnl). }
  destruct (status_of r0) eqn:Hs0.
  1,3: assert (E : complete_module cat now v m t = t)
         by (unfold complete_module; rewrite Hm; simpl; rewrite Hs0; reflexivity);
       rewrite E in Hr |- *; exact (Hinv e1 e2 r He1 He2 Hlt Hr Hnl).
  (* the completion acts: [m] becomes [done] *)
  assert (Hmd : stored_done (complete_module cat now v m t !! (v, m)) = true)
    by (by rewrite (complete_module_marks_done cat now v m t r0 Hm Hs0)).
  destruct (decide (mod_id e1 = m)) as [<-|Hne1].
  { apply stored_done_keep. exact (Hinv e1 e2 r0 He1 He2 Hlt Hm ltac:(congruence)). }
  destruct (next_module_id cat m) as [n|] eqn:Hnext.
  - destruct (decide (mod_id e1 = n)) as [Heq|Hne].
    + (* [e1] is the successor: its predecessors are [m] and those of [m] *)
      unfold next_module_id in Hnext.
      destruct (module_order_index cat m) as [k|] eqn:Hk; [|discriminate].
      unfold module_order_index in Hk.
      destruct (find (fun e => Z.eqb (mod_id e) m) cat) as [em|] eqn:Hfm; [|discriminate].
      apply find_some_in in Hfm as [Hem Hidm]. apply Z.eqb_eq in Hidm.
      simpl in Hk. inversion Hk as [Hk']. subst k.
      destruct (find (fun e => Z.eqb (order_index e) (order_index em + 1)) cat) as [en|] eqn:Hfn;
        [|discriminate].
      apply find_some_in in Hfn as [Hen Hoin]. apply Z.eqb_eq in Hoin.
      simpl in Hnext. injection Hnext as Hn'.
      assert (Heq' : mod_id e1 = mod_id en) by congruence.
      assert (E1 : e1 = en) by exact (NoDup_map_same mod_id cat e1 en Hid He1 Hen Heq').
      subst e1.
      destruct (Z.lt_total (order_index e2) (order_index em)) as [Hlt2|[Heq2|Hgt2]].
      * apply stored_done_keep. rewrite <- Hidm in Hm.
        exact (Hinv em e2 r0 Hem He2 Hlt2 Hm ltac:(congruence)).
      * assert (E2 : e2 = em) by exact (NoDup_map_same order_index cat e2 em Hoi He2 Hem Heq2).
        subst e2. rewrite Hidm. exact Hmd.
      * lia.
    + (* any other row is untouched *)
      assert (E : complete_module cat now v m t !! (v, mod_id e1) = t !! (v, mod_id e1)).
      { unfold complete_module. rewrite Hm. simpl. rewrite Hs0, Hnext.
        rewrite upsert_active_other by congruence.
        unfold mark_done. rewrite Hm. apply lookup_insert_ne. congruence. }
      rewrite E in Hr. apply stored_done_keep. exact (Hinv e1 e2 r He1 He2 Hlt Hr Hnl).
  - assert (E : complete_module cat now v m t !! (v, mod_id e1) = t !! (v, mod_id e1)).
    { unfold complete_module. rewrite Hm. simpl. rewrite Hs0, Hnext.
      unfold mark_done. rewrite Hm. apply lookup_insert_ne. congruence. }
    rewrite E in Hr. apply stored_done_keep. exact (Hinv e1 e2 r He1 He2 Hlt Hr Hnl).
Qed.

Lemma run_calls_preserves_reached_prefix cat calls t u :
  NoDup (map mod_id cat) -> NoDup (map order_index cat) ->
  reached_prefix cat t u -> reached_prefix cat (run_calls cat calls t) u.
Proof.
  intros Hid Hoi. revert t. induction calls as [|[[now v] m] calls IH]; simpl; intros t Hinv;
    [exact Hinv|].
  apply IH. by apply complete_module_preserves_reached_prefix.
Qed.

(** The scenario of the spec, on a table where user 7 has module 1
    provisioned [active]: completing 1, again 1, the locked 3, then 2. *)
Definition seeded_table : table := {[(7, 1) := mk_progress Active None (Some 0) 0 0]}.

Example seeded_scenario :
  map um_status (Part000.get_user_modules seed_catalog
    (run_calls seed_catalog [(1, 7, 1); (2, 7, 1); (3, 7, 3); (4, 7, 2)] seeded_table) 7)
  = [Done; Done; Active; Locked; Locked].
Proof. reflexivity. Qed.

(** ** The counting test of [get_module_status] *)

Lemma filter_and_length_le {A} (f g : A -> bool) (l : list A) :
  (length (List.filter (fun x => f x && g x) l) <= length (List.filter f l))%nat.
Proof.
  induction l as [|a l IH]; simpl; [lia|].
  destruct (f a), (g a); simpl; lia.
Qed.

Lemma filter_and_length_eq {A} (f g : A -> bool) (l : list A) :
  length (List.filter (fun x => f x && g x) l) = length (List.filter f l) <->
  (forall x, In x l -> f x = true -> g x = true).
Proof.
  induction l as [|a l IH]; simpl; [split; [tauto|reflexivity]|].
  pose proof (filter_and_length_le f g l) as Hle.
  destruct (f a) eqn:Hf, (g a) eqn:Hg; simpl.
  - split.
    + intros H x [<-|Hx] Hfx; [exact Hg|]. apply (proj1 IH); [lia|exact Hx|exact Hfx].
    + intros H. f_equal. apply IH. intros x Hx. apply H. now right.
  - split; [lia|]. intros H. specialize (H a (or_introl eq_refl) Hf). congruence.
  - rewrite IH. split; intros H x; [intros [<-|Hx]; [congruence|auto]|auto].
  - rewrite IH. split; intros H x; [intros [<-|Hx]; [congruence|auto]|auto].
Qed.

(** [get_module_status] on a module of the catalog at [order_index = k]:
    it answers [done] exactly when the stored row is [done], and [locked]
    exactly when the row is not [done], [k <> 1] and some module with a
    smaller [order_index] has no [done] row.  The two [COUNT]s agree
    precisely when every preceding module is [done]. *)
Theorem get_module_status_cases (cat : catalog) (t : table) (u m k : Z) :
  module_order_index cat m = Some k ->
  (get_module_status cat t u m = Done <-> stored_done (t !! (u, m)) = true) /\
  (get_module_status cat t u m = Locked <->
     stored_done (t !! (u, m)) = false /\ k <> 1 /\
     exists e, In e cat /\ order_index e < k /\ stored_done (t !! (u, mod_id e)) = false).
Proof.
  intros Hk.
  assert (Hcnt : previous_done_count cat t u (Some k) = total_previous_modules cat (Some k) <->
                 forall e, In e cat -> order_index e < k -> stored_done (t !! (u, mod_id e)) = true).
  { unfold previous_done_count, total_previous_modules.
    rewrite (filter_and_length_eq (fun m2 => sql_lt (order_index m2) (Some k))
               (fun m2 => stored_done (t !! (u, mod_id m2))) cat).
    simpl. split; intros H e He; [intros Hlt; apply H; [exact He|by apply Z.ltb_lt]|].
    intros Hlt. apply H; [exact He|by apply Z.ltb_lt]. }
  assert (Hsd : (match option_map status_of (t !! (u, m)) with
                 | Some s => status_eqb s Done | None => false end) = stored_done (t !! (u, m)))
    by (destruct (t !! (u, m)); reflexivity).
  unfold get_module_status. rewrite Hk, Hsd.
  destruct (stored_done (t !! (u, m))) eqn:Hd.
  { split; [tauto|]. split; [discriminate|intros (? & _); discriminate]. }
  split; [split; [|discriminate]; repeat case_match; discriminate|].
  destruct (Z.eqb k 1) eqn:H1.
  { apply Z.eqb_eq in H1. split; [discriminate|]. intros (_ & H & _). contradiction. }
  apply Z.eqb_neq in H1.
  destruct (Nat.eqb (previous_done_count cat t u (Some k)) (total_previous_modules cat (Some k)))
    eqn:Heq.
  - apply Nat.eqb_eq in Heq. pose proof (proj1 Hcnt Heq) as Hall. clear Heq. rename Hall into Heq.
    split; [discriminate|].
    intros (_ & _ & e & He & Hlt & Hnd). rewrite (Heq e He Hlt) in Hnd. discriminate.
  - split; [intros _|reflexivity]. split; [reflexivity|split; [exact H1|]].
    apply Nat.eqb_neq in Heq. rewrite Hcnt in Heq.
    destruct (existsb (fun e => Z.ltb (order_index e) k && negb (stored_done (t !! (u, mod_id e)))) cat)
      eqn:Hex.
    + apply existsb_exists in Hex as (e & He & Hb). apply andb_true_iff in Hb as [Hlt Hnd].
      exists e. split; [exact He|split; [by apply Z.ltb_lt|by apply negb_true_iff]].
    + exfalso. apply Heq. intros e He Hlt.
      assert (Hf : forall x, In x cat ->
                (fun e => Z.ltb (order_index e) k && negb (stored_done (t !! (u, mod_id e)))) x = false).
      { intros x Hx. destruct (Z.ltb (order_index x) k && negb (stored_done (t !! (u, mod_id x)))) eqn:Hb;
          [|reflexivity].
        exfalso. assert (Hc : existsb (fun e => Z.ltb (order_index e) k &&
                                         negb (stored_done (t !! (u, mod_id e)))) cat = true)
          by (apply existsb_exists; exists x; split; [exact Hx|exact Hb]).
        congruence. }
      specialize (Hf e He). simpl in Hf. apply Z.ltb_lt in Hlt. rewrite Hlt in Hf. simpl in Hf.
      by apply negb_false_iff.
Qed.

Lemma get_module_status_cases_witness :
  module_order_index seed_catalog 4 = Some 4 /\
  ((get_module_status seed_catalog scenario_table 7 4 = Done <->
      stored_done (scenario_table !! (7, 4)) = true) /\
   (get_module_status seed_catalog scenario_table 7 4 = Locked <->
      stored_done (scenario_table !! (7, 4)) = false /\ 4 <> 1 /\
      exists e, In e seed_catalog /\ order_index e < 4 /\
                stored_done (scenario_table !! (7, mod_id e)) = false)).
Proof.
  split; [reflexivity|].
  exact (get_module_status_cases seed_catalog scenario_table 7 4 4 eq_refl).
Defined.

(** ** What [complete_module] writes *)

(** It writes at most two rows: the completed module's and the one of the
    module at [order_index + 1], both of the calling user. *)
Theorem complete_module_frame (cat : catalog) (now u m : Z) (t : table) (k : Z * Z) :
  k <> (u, m) -> (forall n, next_module_id cat m = Some n -> k <> (u, n)) ->
  complete_module cat now u m t !! k = t !! k.
Proof.
  intros Hm Hn. unfold complete_module.
  destruct (t !! (u, m)) as [r|] eqn:Hr; simpl; [|reflexivity].
  destruct (status_of r); try reflexivity.
  assert (H1 : mark_done now u m t !! k = t !! k)
    by (unfold mark_done; rewrite Hr; by apply lookup_insert_ne).
  destruct (next_module_id cat m) as [n|]; [|exact H1].
  rewrite upsert_active_other; [exact H1|]. by apply Hn.
Qed.

Lemma complete_module_frame_witness :
  (7, 3) <> (7, 1) /\ (forall n, next_module_id seed_catalog 1 = Some n -> (7, 3) <> (7, n)) /\
  complete_module seed_catalog 9 7 1 scenario_table !! (7, 3) = scenario_table !! (7, 3).
Proof.
  assert (H1 : (7, 3) <> (7, 1)) by congruence.
  assert (H2 : forall n, next_module_id seed_catalog 1 = Some n -> (7, 3) <> (7, n))
    by (intros n Hn; vm_compute in Hn; injection Hn as <-; congruence).
  split; [exact H1|split; [exact H2|]].
  exact (complete_module_frame seed_catalog 9 7 1 scenario_table (7, 3) H1 H2).
Defined.

(** A write keeps a row when the row stays, with its [created_at], and
    with its [started_at] once that is set. *)
Definition keeps_row (r r' : progress) : Prop :=
  created_at r' = created_at r /\ (started_at r <> None -> started_at r' = started_at r).

Lemma mark_done_keeps_rows now u m t k r :
  t !! k = Some r -> exists r', mark_done now u m t !! k = Some r' /\ keeps_row r r'.
Proof.
  intros Hk. unfold mark_done.
  destruct (t !! (u, m)) as [r0|] eqn:Hr0; [|exists r; split; [exact Hk|split; auto]].
  destruct (decide (k = (u, m))) as [->|Hne].
  - rewrite lookup_insert_eq. eexists; split; [reflexivity|].
    rewrite Hr0 in Hk. injection Hk as <-. split; reflexivity.
  - rewrite lookup_insert_ne by congruence. exists r. split; [exact Hk|split; auto].
Qed.

Lemma upsert_active_keeps_rows now u n t k r :
  t !! k = Some r -> exists r', upsert_active now u n t !! k = Some r' /\ keeps_row r r'.
Proof.
  intros Hk.
  destruct (decide (k = (u, n))) as [->|Hne].
  - unfold upsert_active. rewrite Hk.
    destruct (status_eqb (status_of r) Done); [exists r; split; [exact Hk|split; auto]|].
    rewrite lookup_insert_eq. eexists; split; [reflexivity|]. split; [reflexivity|].
    simpl. destruct (started_at r); [reflexivity|congruence].
  - rewrite upsert_active_other by exact Hne. exists r. split; [exact Hk|split; auto].
Qed.

(** [complete_module] never deletes a row, never changes a row's
    [created_at], and never changes or clears a [started_at] once set
    (the successor's is kept by [COALESCE]). *)
Theorem complete_module_keeps_rows (cat : catalog) (now u m : Z) (t : table) (k : Z * Z) (r : progress) :
  t !! k = Some r ->
  exists r', complete_module cat now u m t !! k = Some r' /\
    created_at r' = created_at r /\ (started_at r <> None -> started_at r' = started_at r).
Proof.
  intros Hk. unfold complete_module.
  destruct (t !! (u, m)) as [r0|] eqn:Hr0; simpl; [|exists r; split; [exact Hk|split; auto]].
  destruct (status_of r0); try (exists r; split; [exact Hk|split; auto]).
  destruct (mark_done_keeps_rows now u m t k r Hk) as (r1 & Hk1 & Hc1 & Hs1).
  destruct (next_module_id cat m) as [n|]; [|exists r1; split; [exact Hk1|split; auto]].
  destruct (upsert_active_keeps_rows now u n _ k r1 Hk1) as (r2 & Hk2 & Hc2 & Hs2).
  exists r2. split; [exact Hk2|split; [congruence|]].
  intros Hs. rewrite <- (Hs1 Hs). apply Hs2. by rewrite (Hs1 Hs).
Qed.

Lemma complete_module_keeps_rows_witness :
  scenario_table !! (7, 1) = Some (mk_progress Active None (Some 1) 1 1) /\
  exists r', complete_module seed_catalog 9 7 1 scenario_table !! (7, 1) = Some r' /\
    created_at r' = created_at (mk_progress Active None (Some 1) 1 1) /\
    (started_at (mk_progress Active None (Some 1) 1 1) <> None ->
     started_at r' = started_at (mk_progress Active None (Some 1) 1 1)).
Proof.
  split; [reflexivity|].
  exact (complete_module_keeps_rows seed_catalog 9 7 1 scenario_table (7, 1) _ eq_refl).
Defined.

Lemma rows_wf_spec (t : table) :
  rows_wf t = true <-> forall k r, t !! k = Some r -> row_wf r = true.
Proof.
  unfold rows_wf. rewrite forallb_forall. split.
  - intros H k r Hk. apply (H (k, r)). apply list_elem_of_In, elem_of_map_to_list, Hk.
  - intros H [k r] Hin. apply list_elem_of_In, elem_of_map_to_list in Hin. exact (H k r Hin).
Qed.

Lemma mark_done_rows_wf now u m t :
  rows_wf t = true -> rows_wf (mark_done now u m t) = true.
Proof.
  rewrite !rows_wf_spec. intros H k r Hk. unfold mark_done in Hk.
  destruct (t !! (u, m)) as [r0|]; [|exact (H k r Hk)].
  destruct (decide (k = (u, m))) as [->|Hne].
  - rewrite lookup_insert_eq in Hk. injection Hk as <-. reflexivity.
  - rewrite lookup_insert_ne in Hk by congruence. exact (H k r Hk).
Qed.

Lemma upsert_active_rows_wf now u n t :
  rows_wf t = true -> rows_wf (upsert_active now u n t) = true.
Proof.
  rewrite !rows_wf_spec. intros H k r Hk.
  destruct (decide (k = (u, n))) as [->|Hne].
  - unfold upsert_active in Hk. destruct (t !! (u, n)) as [r0|] eqn:Hr0.
    + destruct (status_eqb (status_of r0) Done); [exact (H _ r Hk)|].
      rewrite lookup_insert_eq in Hk. injection Hk as <-. reflexivity.
    + rewrite lookup_insert_eq in Hk. injection Hk as <-. reflexivity.
  - rewrite upsert_active_other in Hk by exact Hne. exact (H k r Hk).
Qed.

(** [complete_module] keeps the row invariants: every [done] row has a
    [completed_at] and every [active] row a [started_at]. *)
Theorem complete_module_rows_wf (cat : catalog) (now u m : Z) (t : table) :
  rows_wf t = true -> rows_wf (complete_module cat now u m t) = true.
Proof.
  intros H. unfold complete_module.
  destruct (option_map status_of (t !! (u, m))) as [[| |]|]; try exact H.
  destruct (next_module_id cat m); [apply upsert_active_rows_wf|]; by apply mark_done_rows_wf.
Qed.

Lemma complete_module_rows_wf_witness :
  rows_wf scenario_table = true /\ rows_wf (complete_module seed_catalog 9 7 1 scenario_table) = true.
Proof.
  assert (H : rows_wf scenario_table = true) by (vm_compute; reflexivity).
  split; [exact H|exact (complete_module_rows_wf seed_catalog 9 7 1 scenario_table H)].
Defined.

(** When the completion acts and the module at [order_index + 1] has no
    [done] row, that module's row is [active] afterwards, with its earlier
    [started_at] if it had one and [NOW()] otherwise. *)
Theorem complete_module_provisions_successor (cat : catalog) (now u m n : Z) (t : table) (r : progress) :
  t !! (u, m) = Some r -> status_of r = Active ->
  next_module_id cat m = Some n -> n <> m -> stored_done (t !! (u, n)) = false ->
  exists r', complete_module cat now u m t !! (u, n) = Some r' /\ status_of r' = Active /\
    started_at r' = Some (default now (row_started_at (t !! (u, n)))) /\ updated_at r' = now.
Proof.
  intros Hr Ha Hn Hnm Hnd. unfold complete_module. rewrite Hr. simpl. rewrite Ha, Hn.
  assert (Hmd : mark_done now u m t !! (u, n) = t !! (u, n))
    by (unfold mark_done; rewrite Hr; apply lookup_insert_ne; congruence).
  unfold upsert_active. rewrite Hmd.
  destruct (t !! (u, n)) as [r0|] eqn:Hr0; simpl in Hnd |- *.
  - rewrite Hnd. rewrite lookup_insert_eq. eexists; split; [reflexivity|]. simpl. auto.
  - rewrite lookup_insert_eq. eexists; split; [reflexivity|]. simpl. auto.
Qed.

Lemma complete_module_provisions_successor_witness :
  seeded_table !! (7, 1) = Some (mk_progress Active None (Some 0) 0 0) /\
  status_of (mk_progress Active None (Some 0) 0 0) = Active /\
  next_module_id seed_catalog 1 = Some 2 /\ 2 <> 1 /\ stored_done (seeded_table !! (7, 2)) = false /\
  exists r', complete_module seed_catalog 9 7 1 seeded_table !! (7, 2) = Some r' /\
    status_of r' = Active /\ started_at r' = Some (default 9 (row_started_at (seeded_table !! (7, 2)))) /\
    updated_at r' = 9.
Proof.
  assert (H21 : 2 <> 1) by lia.
  split; [reflexivity|split; [reflexivity|split; [reflexivity|split; [exact H21|split; [reflexivity|]]]]].
  exact (complete_module_provisions_successor seed_catalog 9 7 1 2 seeded_table _
           eq_refl eq_refl eq_refl H21 eq_refl).
Defined.

(** ** The prefix rule from seeded tables *)

Lemma reached_prefixb_spec cat t u : reached_prefixb cat t u = true -> reached_prefix cat t u.
Proof.
  unfold reached_prefixb. intros H e1 e2 r He1 He2 Hlt Hr Hnl.
  rewrite forallb_forall in H. specialize (H e1 He1). rewrite forallb_forall in H.
  specialize (H e2 He2). rewrite Hr in H. simpl in H.
  apply Z.ltb_lt in Hlt. rewrite Hlt in H.
  destruct (status_of r) eqn:Hs; [simpl in H; exact H|simpl in H; exact H|contradiction].
Qed.

Lemma module_status_done_iff cat t u m :
  DesignDoc.module_status cat t u m = Done <-> stored_done (t !! (u, mod_id m)) = true.
Proof.
  unfold DesignDoc.module_status.
  destruct (t !! (u, mod_id m)) as [p|]; simpl.
  - destruct (status_of p); simpl; (split; [|discriminate || reflexivity]);
      try reflexivity; repeat case_match; discriminate.
  - split; [|discriminate]. repeat case_match; discriminate.
Qed.

Lemma part000_status_done_iff (r : option progress) :
  default Locked (option_map status_of r) = Done <-> stored_done r = true.
Proof. destruct r as [p|]; simpl; [destruct (status_of p)|]; simpl; intuition discriminate. Qed.

(** From a table in which every module a user reached ([active] or
    [done]) is preceded only by [done] modules, for instance a table where
    only the first module is provisioned [active], any sequence of
    completions keeps the user's [done] modules a prefix of the catalog
    order in both [get_user_modules] (module ids and [order_index] values
    being unique, as the schema makes them). *)
Theorem seeded_done_prefix (cat : catalog) (calls : list (Z * Z * Z)) (t : table) (u : Z) :
  NoDup (map mod_id cat) -> NoDup (map order_index cat) -> reached_prefixb cat t u = true ->
  (forall r1 r2,
     In r1 (DesignDoc.get_user_modules cat (run_calls cat calls t) u) ->
     In r2 (DesignDoc.get_user_modules cat (run_calls cat calls t) u) ->
     um_status r1 = Done -> um_order_index r2 < um_order_index r1 -> um_status r2 = Done) /\
  (forall r1 r2,
     In r1 (Part000.get_user_modules cat (run_calls cat calls t) u) ->
     In r2 (Part000.get_user_modules cat (run_calls cat calls t) u) ->
     um_status r1 = Done -> um_order_index r2 < um_order_index r1 -> um_status r2 = Done).
Proof.
  intros Hid Hoi Hb.
  pose proof (run_calls_preserves_reached_prefix cat calls t u Hid Hoi (reached_prefixb_spec _ _ _ Hb))
    as Hinv.
  set (t' := run_calls cat calls t) in *.
  assert (Hstep : forall m1 m2, In m1 cat -> In m2 cat -> order_index m2 < order_index m1 ->
            stored_done (t' !! (u, mod_id m1)) = true -> stored_done (t' !! (u, mod_id m2)) = true).
  { intros m1 m2 Hm1 Hm2 Hlt Hd.
    destruct (t' !! (u, mod_id m1)) as [p|] eqn:Hp; [|discriminate].
    apply (Hinv m1 m2 p Hm1 Hm2 Hlt Hp). simpl in Hd. apply status_eqb_true in Hd. congruence. }
  split.
  - intros r1 r2 Hr1 Hr2 Hd Hlt.
    apply in_design_rows in Hr1 as (m1 & Hm1 & ->). apply in_design_rows in Hr2 as (m2 & Hm2 & ->).
    simpl in *. apply module_status_done_iff. apply module_status_done_iff in Hd.
    exact (Hstep m1 m2 Hm1 Hm2 Hlt Hd).
  - intros r1 r2 Hr1 Hr2 Hd Hlt.
    apply in_part000_rows in Hr1 as (m1 & Hm1 & ->). apply in_part000_rows in Hr2 as (m2 & Hm2 & ->).
    simpl in *. apply part000_status_done_iff. apply part000_status_done_iff in Hd.
    exact (Hstep m1 m2 Hm1 Hm2 Hlt Hd).
Qed.

Lemma seeded_done_prefix_witness :
  NoDup (map mod_id seed_catalog) /\ NoDup (map order_index seed_catalog) /\
  reached_prefixb seed_catalog seeded_table 7 = true /\
  ((forall r1 r2,
     In r1 (DesignDoc.get_user_modules seed_catalog
              (run_calls seed_catalog [(1, 7, 1); (2, 7, 3); (3, 7, 2)] seeded_table) 7) ->
     In r2 (DesignDoc.get_user_modules seed_catalog
              (run_calls seed_catalog [(1, 7, 1); (2, 7, 3); (3, 7, 2)] seeded_table) 7) ->
     um_status r1 = Done -> um_order_index r2 < um_order_index r1 -> um_status r2 = Done) /\
   (forall r1 r2,
     In r1 (Part000.get_user_modules seed_catalog
              (run_calls seed_catalog [(1, 7, 1); (2, 7, 3); (3, 7, 2)] seeded_table) 7) ->
     In r2 (Part000.get_user_modules seed_catalog
              (run_calls seed_catalog [(1, 7, 1); (2, 7, 3); (3, 7, 2)] seeded_table) 7) ->
     um_status r1 = Done -> um_order_index r2 < um_order_index r1 -> um_status r2 = Done)).
Proof.
  assert (Hid : NoDup (map mod_id seed_catalog))
    by (apply (bool_decide_unpack _); vm_compute; exact I).
  assert (Hoi : NoDup (map order_index seed_catalog))
    by (apply (bool_decide_unpack _); vm_compute; exact I).
  assert (Hb : reached_prefixb seed_catalog seeded_table 7 = true) by (vm_compute; reflexivity).
  split; [exact Hid|split; [exact Hoi|split; [exact Hb|]]].
  exact (seeded_done_prefix seed_catalog [(1, 7, 1); (2, 7, 3); (3, 7, 2)] seeded_table 7 Hid Hoi Hb).
Defined.

(** ** The completion trigger *)

(** [complete_module] in a database where [trigger_module_completion] is
    installed: the trigger fires after step (a) (the row [(u, m)] goes from
    [active] to [done]) and after the upsert of step (c) when it writes a
    row (insert, or conflict update with the row not [done]); the upsert's
    row has status [active]. *)
Definition complete_module_triggered (cat : catalog) (now u m : Z) (t : table) : table :=
  match option_map status_of (t !! (u, m)) with
  | Some Active =>
      let t1 := handle_module_completion cat now (Some Active) u m Done (mark_done now u m t) in
      match next_module_id cat m with
      | Some n =>
          let t2 := upsert_active now u n t1 in
          match t1 !! (u, n) with
          | None => handle_module_completion cat now None u n Active t2
          | Some r =>
              if status_eqb (status_of r) Done then t2
              else handle_module_completion cat now (Some (status_of r)) u n Active t2
          end
      | None => t1
      end
  | _ => t
  end.

Lemma upsert_active_idem now u n t :
  upsert_active now u n (upsert_active now u n t) = upsert_active now u n t.
Proof.
  unfold upsert_active at 2 3.
  destruct (t !! (u, n)) as [r|] eqn:Hr.
  - destruct (status_eqb (status_of r) Done) eqn:Hd.
    + unfold upsert_active. rewrite Hr, Hd. reflexivity.
    + unfold upsert_active. rewrite lookup_insert_eq. simpl. rewrite insert_insert_eq. reflexivity.
  - unfold upsert_active. rewrite lookup_insert_eq. simpl. rewrite insert_insert_eq. reflexivity.
Qed.

(** With the trigger installed, [complete_module] leaves the same table as
    without it: the trigger's upsert of the successor and the function's own
    upsert coincide, and the trigger ignores the successor's [active]
    write. *)
Theorem complete_module_trigger_agrees (cat : catalog) (now u m : Z) (t : table) :
  complete_module_triggered cat now u m t = complete_module cat now u m t.
Proof.
  unfold complete_module_triggered, complete_module.
  destruct (option_map status_of (t !! (u, m))) as [[| |]|]; try reflexivity.
  assert (Hact : forall o k t', handle_module_completion cat now o u k Active t' = t')
    by (intros; reflexivity).
  assert (Ht1 : handle_module_completion cat now (Some Active) u m Done (mark_done now u m t) =
                match next_module_id cat m with
                | Some n => upsert_active now u n (mark_done now u m t)
                | None => mark_done now u m t
                end) by reflexivity.
  cbv zeta. rewrite Ht1.
  destruct (next_module_id cat m) as [n|]; [|reflexivity].
  rewrite upsert_active_idem.
  destruct (upsert_active now u n (mark_done now u m t) !! (u, n)) as [r|];
    [destruct (status_eqb (status_of r) Done)|]; rewrite ?Hact; reflexivity.
Qed.

(** The trigger opens the successor whenever a row becomes [done] from
    any other status or is inserted as [done], [locked] included (unlike
    [complete_module], which requires [active]): the successor's row,
    unless [done], is [active] afterwards and no other row changes.  A row
    saved again as [done] triggers nothing. *)
Theorem handle_module_completion_opens_successor (cat : catalog) (now : Z)
    (old : option status) (u m n : Z) (t : table) :
  next_module_id cat m = Some n -> old <> Some Done ->
  stored_done (t !! (u, n)) = false ->
  option_map status_of (handle_module_completion cat now old u m Done t !! (u, n)) = Some Active /\
  (forall k, k <> (u, n) -> handle_module_completion cat now old u m Done t !! k = t !! k) /\
  handle_module_completion cat now (Some Done) u m Done t = t.
Proof.
  intros Hn Hold Hnd.
  assert (Hc : match old with None => true | Some s => negb (status_eqb s Done) end = true).
  { destruct old as [[| |]|]; simpl; try reflexivity. congruence. }
  unfold handle_module_completion. simpl. rewrite Hc, Hn.
  split; [|split; [|reflexivity]].
  - unfold upsert_active. destruct (t !! (u, n)) as [r|] eqn:Hr.
    + simpl in Hnd. rewrite Hnd. rewrite lookup_insert_eq. reflexivity.
    + rewrite lookup_insert_eq. reflexivity.
  - intros k Hk. unfold upsert_active.
    destruct (t !! (u, n)) as [r|];
      [destruct (status_eqb (status_of r) Done)|]; try reflexivity;
      rewrite lookup_insert_ne by congruence; reflexivity.
Qed.

Lemma handle_module_completion_opens_successor_witness :
  next_module_id seed_catalog 3 = Some 4 /\ Some Locked <> Some Done /\
  stored_done (locked_table !! (7, 4)) = false /\
  (option_map status_of (handle_module_completion seed_catalog 9 (Some Locked) 7 3 Done locked_table
     !! (7, 4)) = Some Active /\
   (forall k, k <> (7, 4) ->
      handle_module_completion seed_catalog 9 (Some Locked) 7 3 Done locked_table !! k = locked_table !! k) /\
   handle_module_completion seed_catalog 9 (Some Done) 7 3 Done locked_table = locked_table).
Proof.
  assert (Hn : next_module_id seed_catalog 3 = Some 4) by reflexivity.
  assert (Ho : Some Locked <> Some Done) by discriminate.
  assert (Hs : stored_done (locked_table !! (7, 4)) = false) by reflexivity.
  split; [exact Hn|split; [exact Ho|split; [exact Hs|]]].
  exact (handle_module_completion_opens_successor seed_catalog 9 (Some Locked) 7 3 4 locked_table Hn Ho Hs).
Defined.

(** ** [complete_module] under row-level security *)



(** ** The view [user_modules_with_status] *)




(** ** The materialized cache of part_000 *)

Lemma cache_module_keys_in (t : table) (m : module) (ds : list Z) (x : Z * Z) :
  In x (flat_map cache_index_key (map (cache_row_of t m) ds)) ->
  x.2 = mod_id m /\ In x.1 ds.
Proof.
  rewrite in_flat_map. intros (c & Hc & Hx).
  apply in_map_iff in Hc as (d & <- & Hd).
  unfold cache_index_key, cache_row_of in Hx.
  destruct (t !! (d, mod_id m)); simpl in Hx; [|contradiction].
  destruct Hx as [<-|[]]. simpl. split; [reflexivity|exact Hd].
Qed.

Lemma cache_module_keys_nodup (t : table) (m : module) (ds : list Z) :
  NoDup ds -> NoDup (flat_map cache_index_key (map (cache_row_of t m) ds)).
Proof.
  induction ds as [|d ds IH]; simpl; intros Hnd; [constructor|].
  apply NoDup_cons in Hnd as [Hd Hnd].
  unfold cache_index_key at 1, cache_row_of at 1.
  destruct (t !! (d, mod_id m)); simpl; [|exact (IH Hnd)].
  constructor; [|exact (IH Hnd)].
  intros Hin. apply list_elem_of_In, cache_module_keys_in in Hin as [_ Hin].
  apply Hd, list_elem_of_In, Hin.
Qed.

Lemma cache_index_keys_in (cat : catalog) (t : table) (x : Z * Z) :
  In x (cache_index_keys cat t) -> In x.2 (map mod_id cat).
Proof.
  unfold cache_index_keys, user_modules_status_cache.
  induction cat as [|m cat IH]; simpl; [tauto|].
  rewrite flat_map_app, in_app_iff. intros [Hx|Hx].
  - left. symmetry. exact (proj1 (cache_module_keys_in t m _ x Hx)).
  - right. exact (IH Hx).
Qed.

(** With module ids unique ([modules.id] is the primary key), no two rows
    of the cache with a non-[NULL] [user_id] share [(user_id, module_id)]:
    the unique index of the cache is never violated, whatever the progress
    table.  Users missing a module all get a row [(NULL, module_id)] for it,
    which the index does not compare. *)
Theorem user_modules_status_cache_unique_index (cat : catalog) (t : table) :
  NoDup (map mod_id cat) -> NoDup (cache_index_keys cat t).
Proof.
  unfold cache_index_keys, user_modules_status_cache.
  assert (Hu : NoDup (distinct_users t)) by (apply NoDup_remove_dups).
  induction cat as [|m cat IH]; simpl; intros Hnd; [constructor|].
  apply NoDup_cons in Hnd as [Hm Hnd].
  rewrite flat_map_app. apply NoDup_app. split; [|split].
  - exact (cache_module_keys_nodup t m _ Hu).
  - intros x Hx1 Hx2. apply list_elem_of_In in Hx1, Hx2.
    apply cache_module_keys_in in Hx1 as [Hx1 _].
    pose proof (cache_index_keys_in cat t x Hx2) as Hx.
    rewrite Hx1 in Hx. apply Hm, list_elem_of_In, Hx.
  - exact (IH Hnd).
Qed.

(** Users 7 and 8 with rows for different modules: both miss some module. *)
Definition two_user_table : table :=
  <[(8, 1) := mk_progress Active None (Some 0) 0 0]> scenario_table.

Lemma user_modules_status_cache_unique_index_witness :
  NoDup (map mod_id seed_catalog) /\ NoDup (cache_index_keys seed_catalog two_user_table).
Proof.
  assert (Hnd : NoDup (map mod_id seed_catalog))
    by (apply (bool_decide_unpack _); vm_compute; exact I).
  split; [exact Hnd|].
  exact (user_modules_status_cache_unique_index seed_catalog two_user_table Hnd).
Defined.
